(** * ts-refined: refinement predicates and the narrowing / lifting engine

  A shallow embedding of [src/index.ts] (the engine: [guard], [guards],
  [lift], [lifts], [liftUnsafe], [guardImpl]) and of the example string
  predicates ([NotEmpty], [NotBlank], [Trimmed], [LowerCase],
  [UpperCase]).

  - An ECMAScript string is its sequence of UTF-16 code units; a code
    unit is an [N].
  - A regular expression literal is a small syntax tree run by a
    backtracking matcher, searched from index 0 onwards as
    [RegExp.prototype.test] does.
  - The engine runs in a state-and-exception monad: the state is the
    world that predicate code may touch, the exception is the [Error]
    thrown by [lift] and [lifts].
  - The engine is given twice: on predicates that return, with their
    answer and their effect apart, and, in [General], on predicates
    that are any code and may throw; the first is the second on the
    predicates that return ([guardImpl_embed], [lift_embed]).
  - [toLowerCase] and [toUpperCase] convert the code points of a
    string: ASCII by rule, the rest by the tables of the host. *)

From Stdlib Require Import List NArith Bool String Ascii Lia Permutation.
Import ListNotations.

Local Open Scope N_scope.

(* ================================================================= *)
(** ** ECMAScript strings *)

Module JS.

(** A string value: a finite sequence of 16-bit code units. *)
Definition jsstring := list N.

(** The code units of an ASCII literal of the source text. *)
Definition lit (s : string) : jsstring :=
  map N_of_ascii (list_ascii_of_string s).

(** [s === t] on two strings. *)
Fixpoint str_eqb (s t : jsstring) : bool :=
  match s, t with
  | [], [] => true
  | c :: s', d :: t' => (c =? d) && str_eqb s' t'
  | _, _ => false
  end.

(** LineTerminator: LF, CR, LS, PS. *)
Definition isLineTerminator (c : N) : bool :=
  (c =? 10) || (c =? 13) || (c =? 8232) || (c =? 8233).

(** WhiteSpace: TAB, VT, FF, SP, NBSP, ZWNBSP and the category Zs. *)
Definition isWhiteSpace (c : N) : bool :=
  (c =? 9) || (c =? 11) || (c =? 12) || (c =? 32) || (c =? 160)
  || (c =? 5760) || ((8192 <=? c) && (c <=? 8202))
  || (c =? 8239) || (c =? 8287) || (c =? 12288) || (c =? 65279).

(** The character class escape [\s]: WhiteSpace or LineTerminator. *)
Definition isSpace (c : N) : bool :=
  isWhiteSpace c || isLineTerminator c.

End JS.

Import JS.

(* ================================================================= *)
(** ** Regular expression literals *)

Module RegExp.

(** The atoms the literals of this repository use. *)
Inductive atom : Type :=
| Dot                (* [.]     : any code unit but a line terminator *)
| ClassS             (* [\s]                                          *)
| NotClassS.         (* [[^\s]]                                       *)

(** A term of an alternative: an assertion, an atom, or a quantified
    atom ([*] greedy, [*?] lazy). *)
Inductive term : Type :=
| Bol                              (* [^] *)
| Eol                              (* [$] *)
| One (a : atom)
| Star (a : atom) (lazy : bool).

Definition pattern := list term.

Definition accepts (a : atom) (c : N) : bool :=
  match a with
  | Dot => negb (isLineTerminator c)
  | ClassS => isSpace c
  | NotClassS => negb (isSpace c)
  end.

(** The loop of a starred atom in front of the continuation [k]: the
    lazy form tries the continuation first, the greedy form tries one
    more code unit first.  [atStart] tells whether the current index
    is 0. *)
Fixpoint repeat (acc : N -> bool) (lazy : bool)
         (k : jsstring -> bool -> bool)
         (s : jsstring) (atStart : bool) : bool :=
  match s with
  | [] => k [] atStart
  | c :: s' =>
      if lazy
      then k s atStart || (acc c && repeat acc lazy k s' false)
      else (acc c && repeat acc lazy k s' false) || k s atStart
  end.

(** Does [p] match at the current index, the rest of the input being
    [s]?  No flag is set: [^] holds at index 0 only and [$] at the end
    of the input only. *)
Fixpoint matchHere (p : pattern) (s : jsstring) (atStart : bool) : bool :=
  match p with
  | [] => true
  | Bol :: p' => atStart && matchHere p' s atStart
  | Eol :: p' =>
      match s with
      | [] => matchHere p' s atStart
      | _ :: _ => false
      end
  | One a :: p' =>
      match s with
      | [] => false
      | c :: s' => accepts a c && matchHere p' s' false
      end
  | Star a lazy :: p' => repeat (accepts a) lazy (matchHere p') s atStart
  end.

(** The search of [RegExp.prototype.test] (no [g], no [y]): try index
    0, then every later index. *)
Fixpoint searchFrom (p : pattern) (s : jsstring) (atStart : bool) : bool :=
  matchHere p s atStart
  || match s with
     | [] => false
     | _ :: s' => searchFrom p s' false
     end.

Definition test (p : pattern) (s : jsstring) : bool :=
  searchFrom p s true.

End RegExp.

(* ================================================================= *)
(** ** What the host supplies *)

(** The Unicode case conversion of the code points outside ASCII
    ([String.prototype.toLowerCase] and [toUpperCase] take it from the
    Unicode tables of the host: the mapping of a code point may have
    several code points and may depend on the code points before it,
    nearest first, and after it), and, for a class of the predicate file
    given by its name, the compiled source text before and after that
    name (what [Function.prototype.toString] shows around it). *)
Class Host : Type := {
  unicodeLower : list N -> N -> list N -> list N;
  unicodeUpper : list N -> N -> list N -> list N;
  emitted : jsstring -> jsstring * jsstring
}.

(** [ToString] of a value of the base type, as a template literal
    applies it. *)
Class Show (A : Type) : Type := { ToString : A -> jsstring }.

#[export] Instance Show_string : Show jsstring := {| ToString := fun s => s |}.

(** A code unit has 16 bits. *)
Definition isCodeUnit (c : N) : bool := c <? 65536.

(** The leading surrogates D800 to DBFF and the trailing surrogates
    DC00 to DFFF. *)
Definition isLeadingSurrogate (c : N) : bool := (55296 <=? c) && (c <=? 56319).
Definition isTrailingSurrogate (c : N) : bool := (56320 <=? c) && (c <=? 57343).

(** [UTF16SurrogatePairToCodePoint]. *)
Definition pairToCodePoint (c d : N) : N :=
  (c - 55296) * 1024 + (d - 56320) + 65536.

(** [StringToCodePoints]: a leading surrogate followed by a trailing
    one is one code point, every other code unit is a code point by
    itself. *)
Fixpoint StringToCodePoints (s : jsstring) : list N :=
  match s with
  | [] => []
  | c :: s' =>
      match s' with
      | d :: s'' =>
          if isLeadingSurrogate c && isTrailingSurrogate d
          then pairToCodePoint c d :: StringToCodePoints s''
          else c :: StringToCodePoints s'
      | [] => [c]
      end
  end.

(** [UTF16EncodeCodePoint]. *)
Definition encodeCodePoint (cp : N) : jsstring :=
  if cp <? 65536 then [cp]
  else [(cp - 65536) / 1024 + 55296; (cp - 65536) mod 1024 + 56320].

(** [CodePointsToString]. *)
Definition CodePointsToString (cps : list N) : jsstring :=
  flat_map encodeCodePoint cps.

(** The conversion of a text, code point after code point, each
    seen with what precedes it (nearest first) and what follows it. *)
Fixpoint convertCase (f : list N -> N -> list N -> list N)
         (before cps : list N) : list N :=
  match cps with
  | [] => []
  | c :: after => f before c after ++ convertCase f (c :: before) after
  end.

Section CaseConversion.
Context `{Host}.

Definition lowerPoint (before : list N) (c : N) (after : list N) : list N :=
  if (65 <=? c) && (c <=? 90) then [c + 32]
  else if c <? 128 then [c]
  else unicodeLower before c after.

Definition upperPoint (before : list N) (c : N) (after : list N) : list N :=
  if (97 <=? c) && (c <=? 122) then [c - 32]
  else if c <? 128 then [c]
  else unicodeUpper before c after.

(** [s.toLowerCase()] and [s.toUpperCase()]: the code points of the
    string, converted, and encoded again. *)
Definition toLowerCase (s : jsstring) : jsstring :=
  CodePointsToString (convertCase lowerPoint [] (StringToCodePoints s)).
Definition toUpperCase (s : jsstring) : jsstring :=
  CodePointsToString (convertCase upperPoint [] (StringToCodePoints s)).

(** A code point without case: neither conversion changes it, wherever
    it stands. *)
Definition caseless (c : N) : Prop :=
  forall before after : list N,
    lowerPoint before c after = [c] /\ upperPoint before c after = [c].

End CaseConversion.

(* ================================================================= *)
(** ** Completions and effects *)

(** The object built by [new Error(message)]. *)
Record Error : Type := mkError { message : jsstring }.

(** How a call ends: with a value or with a thrown error. *)
Inductive completion (X : Type) : Type :=
| Normal (x : X)
| Throw (e : Error).

Arguments Normal {X} x.
Arguments Throw {X} e.

(** A computation over the world [W]. *)
Definition Eff (W X : Type) : Type := W -> completion X * W.

Definition ret {W X} (x : X) : Eff W X := fun w => (Normal x, w).

Definition throw {W X} (e : Error) : Eff W X := fun w => (Throw e, w).

Definition bind {W X Y} (c : Eff W X) (k : X -> Eff W Y) : Eff W Y :=
  fun w =>
    match c w with
    | (Normal x, w') => k x w'
    | (Throw e, w') => (Throw e, w')
    end.

Declare Scope eff_scope.
Delimit Scope eff_scope with eff.
Notation "x <- c ;; k" := (bind c (fun x => k))
  (at level 61, c at next level, right associativity) : eff_scope.

Definition returned {X W} (r : completion X * W) : option X :=
  match fst r with
  | Normal x => Some x
  | Throw _ => None
  end.

Definition thrown {X W} (r : completion X * W) : option Error :=
  match fst r with
  | Normal _ => None
  | Throw e => Some e
  end.

(* ================================================================= *)
(** ** The engine of [src/index.ts] *)

Section Engine.
Variable A : Type.
Variable W : Type.
Context `{Show A}.

(** [Refinement<A>]: the [test] of a predicate instance.  Its answer
    is a function of the value; [test_effect] is what the call does to
    the world besides (nothing for the predicates of this repository, a
    counter or a log for a tracing predicate of a test suite). *)
Record Refinement : Type := {
  test : A -> bool;
  test_effect : A -> W -> W
}.

(** [Ctor<Refinement<A>>]: a class.  [ctor_name] is its name,
    [src_before] and [src_after] the source text around the name,
    [new_effect] what running the constructor does to the world and
    [instance] the object it builds. *)
Record Ctor : Type := {
  ctor_name : jsstring;
  src_before : jsstring;
  src_after : jsstring;
  new_effect : W -> W;
  instance : Refinement
}.

(** [Refined<A, T>] is [A] at run time: the tag is a type only. *)
Definition Refined : Type := A.

(** [new x()]. *)
Definition new (x : Ctor) : Eff W Refinement :=
  fun w => (Normal (instance x), new_effect x w).

(** [r.test(a)]. *)
Definition call_test (r : Refinement) (a : A) : Eff W bool :=
  fun w => (Normal (test r a), test_effect r a w).

Local Open Scope eff_scope.

(** [for (const x of xs) { if (!new x().test(a)) return false; }
    return true;] *)
Fixpoint guardImpl (a : A) (xs : list Ctor) : Eff W bool :=
  match xs with
  | [] => ret true
  | x :: xs' =>
      r <- new x ;;
      b <- call_test r a ;;
      if negb b then ret false else guardImpl a xs'
  end.

Definition guard (a : A) (xs : list Ctor) : Eff W bool := guardImpl a xs.

Definition guards (a : Refined) (xs : list Ctor) : Eff W bool :=
  guardImpl a xs.

(** [String(x)] of a class: its source text. *)
Definition Function_toString (x : Ctor) : jsstring :=
  src_before x ++ ctor_name x ++ src_after x.

(** [Array.prototype.join] with the separator [","]. *)
Fixpoint join (l : list jsstring) : jsstring :=
  match l with
  | [] => []
  | [s] => s
  | s :: l' => s ++ lit "," ++ join l'
  end.

(** [String(xs)] of an array of classes. *)
Definition Array_toString (xs : list Ctor) : jsstring :=
  join (map Function_toString xs).

(** The template literal [`Refinement error: ${xs}: ${a}.`]. *)
Definition refinementError (xs : list Ctor) (a : A) : Error :=
  mkError (lit "Refinement error: " ++ Array_toString xs
           ++ lit ": " ++ ToString a ++ lit ".").

Definition lift (a : A) (xs : list Ctor) : Eff W Refined :=
  b <- guardImpl a xs ;;
  if b then ret a else throw (refinementError xs a).

Definition lifts (a : Refined) (xs : list Ctor) : Eff W Refined :=
  b <- guardImpl a xs ;;
  if b then ret a else throw (refinementError xs a).

Definition liftUnsafe (a : A) : Eff W Refined := ret a.

(** [lifts(lift(a, t), u)]: the argument is evaluated first, and its
    throw ends the whole expression. *)
Definition liftThenLifts (a : A) (t u : Ctor) : Eff W Refined :=
  r <- lift a [t] ;; lifts r [u].

(** The world after [new x().test(a)]. *)
Definition step_world (a : A) (w : W) (x : Ctor) : W :=
  test_effect (instance x) a (new_effect x w).

(** Does the predicate of class [x] hold of [a]? *)
Definition holds (a : A) (x : Ctor) : bool := test (instance x) a.

(** The classes [guardImpl] gets to: those up to and including the
    first whose predicate fails. *)
Fixpoint evaluated (a : A) (xs : list Ctor) : list Ctor :=
  match xs with
  | [] => []
  | x :: xs' => x :: (if holds a x then evaluated a xs' else [])
  end.

(** A class whose constructor and test leave the world alone. *)
Definition pureCtor (name : jsstring) (around : jsstring * jsstring)
           (f : A -> bool) : Ctor :=
  {| ctor_name := name;
     src_before := fst around;
     src_after := snd around;
     new_effect := fun w => w;
     instance := {| test := f; test_effect := fun _ w => w |} |}.

End Engine.

Arguments test {A W} r a.
Arguments test_effect {A W} r a w.
Arguments ctor_name {A W} c.
Arguments src_before {A W} c.
Arguments src_after {A W} c.
Arguments new_effect {A W} c w.
Arguments instance {A W} c.
Arguments new {A W} x.
Arguments call_test {A W} r a.
Arguments guardImpl {A W} a xs.
Arguments guard {A W} a xs.
Arguments guards {A W} a xs.
Arguments Function_toString {A W} x.
Arguments Array_toString {A W} xs.
Arguments refinementError {A W _} xs a.
Arguments lift {A W _} a xs.
Arguments lifts {A W _} a xs.
Arguments liftUnsafe {A W} a.
Arguments liftThenLifts {A W _} a t u.
Arguments step_world {A W} a w x.
Arguments holds {A W} a x.
Arguments evaluated {A W} a xs.
Arguments pureCtor {A W} name around f.

(* ================================================================= *)
(** ** The predicates *)

(** [/^\s*$/] *)
Definition re_blank : RegExp.pattern :=
  [RegExp.Bol; RegExp.Star RegExp.ClassS false; RegExp.Eol].

(** [/^[^\s].*?[^\s]$/] *)
Definition re_trimmed : RegExp.pattern :=
  [RegExp.Bol; RegExp.One RegExp.NotClassS; RegExp.Star RegExp.Dot true;
   RegExp.One RegExp.NotClassS; RegExp.Eol].

Section Predicates.
Context `{Host}.
Variable W : Type.

(** The class of the given name of the predicate file, with the [test]
    its field initialiser assigns. *)
Definition declared (name : string) (f : jsstring -> bool)
  : Ctor jsstring W :=
  pureCtor (lit name) (emitted (lit name)) f.

Definition NotEmpty : Ctor jsstring W :=
  declared "NotEmpty" (fun s => negb (str_eqb s (lit ""))).

Definition NotBlank : Ctor jsstring W :=
  declared "NotBlank" (fun s => negb (RegExp.test re_blank s)).

Definition Trimmed : Ctor jsstring W :=
  declared "Trimmed" (fun s => RegExp.test re_trimmed s).

Definition LowerCase : Ctor jsstring W :=
  declared "LowerCase" (fun s => str_eqb s (toLowerCase s)).

Definition UpperCase : Ctor jsstring W :=
  declared "UpperCase" (fun s => str_eqb s (toUpperCase s)).

(** The tautological predicate of [src/index.ts], of any base type. *)
Definition Nil (A : Type) : Ctor A W :=
  pureCtor (lit "Nil") (emitted (lit "Nil")) (fun _ => true).

End Predicates.

Arguments NotEmpty {_ W}.
Arguments NotBlank {_ W}.
Arguments Trimmed {_ W}.
Arguments LowerCase {_ W}.
Arguments UpperCase {_ W}.
Arguments Nil {_ W A}.

(** What the description of [Trimmed] asks of a string: at least two
    code units, the first and the last of them not white space (so no
    white space leads or trails). *)
Definition trimmed_shape (s : jsstring) : bool :=
  match s with
  | [] => false
  | c :: s' =>
      match rev s' with
      | [] => false
      | d :: _ => negb (isSpace c) && negb (isSpace d)
      end
  end.

(** The same, and no line terminator between the first and the last
    code unit. *)
Definition trimmed_line (s : jsstring) : bool :=
  match s with
  | [] => false
  | c :: s' =>
      match rev s' with
      | [] => false
      | d :: m =>
          negb (isSpace c) && negb (isSpace d)
          && forallb (fun x => negb (isLineTerminator x)) m
      end
  end.

(** What [trimmed_line] asks of the tail: a last code unit that is not
    white space, and no line terminator before it. *)
Definition ends_well (s : jsstring) : bool :=
  match rev s with
  | [] => false
  | d :: m =>
      negb (isSpace d) && forallb (fun x => negb (isLineTerminator x)) m
  end.

(* ================================================================= *)
(** ** Tracing predicates *)

(** What a tracing predicate records: the class at position [i] of the
    argument list was instantiated, or its instance was tested. *)
Inductive Event : Type :=
| Instantiated (i : nat)
| Tested (i : nat).

Section Tracing.
Variable A : Type.
Variable W : Type.

(** The class [x] made to record, next to what it does itself, its
    instantiation and its test under the position [i]. *)
Definition probe (i : nat) (x : Ctor A W) : Ctor A (W * list Event) :=
  {| ctor_name := ctor_name x;
     src_before := src_before x;
     src_after := src_after x;
     new_effect := fun wl => (new_effect x (fst wl), snd wl ++ [Instantiated i]);
     instance :=
       {| test := test (instance x);
          test_effect := fun a wl =>
            (test_effect (instance x) a (fst wl), snd wl ++ [Tested i]) |} |}.

Fixpoint instrumentFrom (k : nat) (xs : list (Ctor A W))
  : list (Ctor A (W * list Event)) :=
  match xs with
  | [] => []
  | x :: xs' => probe k x :: instrumentFrom (S k) xs'
  end.

Definition instrument (xs : list (Ctor A W)) : list (Ctor A (W * list Event)) :=
  instrumentFrom 0 xs.

(** The record left by a call of [guardImpl] on the probed classes. *)
Definition trace (a : A) (xs : list (Ctor A W)) (w : W) : list Event :=
  snd (snd (guardImpl a (instrument xs) (w, []))).

End Tracing.

Arguments probe {A W} i x.
Arguments instrumentFrom {A W} k xs.
Arguments instrument {A W} xs.
Arguments trace {A W} a xs w.

Definition event_index (e : Event) : nat :=
  match e with
  | Instantiated i => i
  | Tested i => i
  end.

(** What the probes at the positions [js] record, one after the other. *)
Definition recorded (js : list nat) : list Event :=
  flat_map (fun j => [Instantiated j; Tested j]) js.

(** The names of [names], in this order and apart, occur in [s]. *)
Fixpoint occur_in_order (names : list jsstring) (s : jsstring) : Prop :=
  match names with
  | [] => True
  | n :: names' =>
      exists pre post, s = pre ++ n ++ post /\ occur_in_order names' post
  end.

(* ================================================================= *)
(** ** Calls that follow one another *)

Section Chains.
Variable A : Type.
Variable W : Type.
Context `{Show A}.

Local Open Scope eff_scope.

(** [guard(a, ...xs) && guards(a, ...ys)]: the right operand of [&&]
    is evaluated only when the left one is true. *)
Definition guardThenGuards (a : A) (xs ys : list (Ctor A W)) : Eff W bool :=
  b <- guard a xs ;; if b then guards a ys else ret false.

(** [lifts(lift(a, ...xs), ...ys)]. *)
Definition liftThenLiftsAll (a : A) (xs ys : list (Ctor A W))
  : Eff W (Refined A) :=
  r <- lift a xs ;; lifts r ys.

End Chains.

Arguments guardThenGuards {A W} a xs ys.
Arguments liftThenLiftsAll {A W _} a xs ys.

(* ================================================================= *)
(** ** The engine on predicates that are any code *)

(** A class and its [test] are code of the caller: [new x()] and
    [r.test(a)] may read and write the world and may throw, and
    [guardImpl] has no handler.  [General] has the engine on such
    predicates, function by function as above; the engine above is its
    restriction to the predicates that return, see [embed]. *)
Module General.

Section Engine.
Variable A : Type.
Variable W : Type.
Context `{Show A}.

(** [Refinement<A>]: [test r a] is the call [r.test(a)]. *)
Record Refinement : Type := { test : A -> Eff W bool }.

(** [Ctor<Refinement<A>>]: [construct x] is [new x()]. *)
Record Ctor : Type := {
  ctor_name : jsstring;
  src_before : jsstring;
  src_after : jsstring;
  construct : Eff W Refinement
}.

Local Open Scope eff_scope.

(** [for (const x of xs) { if (!new x().test(a)) return false; }
    return true;] *)
Fixpoint guardImpl (a : A) (xs : list Ctor) : Eff W bool :=
  match xs with
  | [] => ret true
  | x :: xs' =>
      r <- construct x ;;
      b <- test r a ;;
      if negb b then ret false else guardImpl a xs'
  end.

Definition guard (a : A) (xs : list Ctor) : Eff W bool := guardImpl a xs.

Definition guards (a : A) (xs : list Ctor) : Eff W bool := guardImpl a xs.

Definition Function_toString (x : Ctor) : jsstring :=
  src_before x ++ ctor_name x ++ src_after x.

Definition Array_toString (xs : list Ctor) : jsstring :=
  join (map Function_toString xs).

Definition refinementError (xs : list Ctor) (a : A) : Error :=
  mkError (lit "Refinement error: " ++ Array_toString xs
           ++ lit ": " ++ ToString a ++ lit ".").

Definition lift (a : A) (xs : list Ctor) : Eff W A :=
  b <- guardImpl a xs ;;
  if b then ret a else throw (refinementError xs a).

Definition lifts (a : A) (xs : list Ctor) : Eff W A :=
  b <- guardImpl a xs ;;
  if b then ret a else throw (refinementError xs a).

(** The expression [new x().test(a)]. *)
Definition check (x : Ctor) (a : A) : Eff W bool :=
  r <- construct x ;; test r a.

(** The predicate of class [x] answers [b] for [a]: in every world
    [new x().test(a)] returns [b]. *)
Definition answers (x : Ctor) (a : A) (b : bool) : Prop :=
  forall w : W, exists w' : W, check x a w = (Normal b, w').

End Engine.

Arguments test {A W} r a.
Arguments ctor_name {A W} c.
Arguments src_before {A W} c.
Arguments src_after {A W} c.
Arguments construct {A W} c.
Arguments guardImpl {A W} a xs.
Arguments guard {A W} a xs.
Arguments guards {A W} a xs.
Arguments Function_toString {A W} x.
Arguments Array_toString {A W} xs.
Arguments refinementError {A W _} xs a.
Arguments lift {A W _} a xs.
Arguments lifts {A W _} a xs.
Arguments check {A W} x a.
Arguments answers {A W} x a b.

End General.

(** A class whose constructor and test return, as a class of
    [General]. *)
Definition embed {A W : Type} (x : Ctor A W) : General.Ctor A W :=
  {| General.ctor_name := ctor_name x;
     General.src_before := src_before x;
     General.src_after := src_after x;
     General.construct := fun w =>
       (Normal {| General.test := call_test (instance x) |}, new_effect x w) |}.

(** A class a caller can write: its test throws,
    [test = (s : string) : boolean => { throw new Error("boom"); }]. *)
Definition Boom {W : Type} : General.Ctor jsstring W :=
  {| General.ctor_name := lit "Boom";
     General.src_before := lit "class ";
     General.src_after := lit " { }";
     General.construct :=
       ret {| General.test := fun _ => throw (mkError (lit "boom")) |} |}.

(** The code units of ASCII, and its letters. *)
Definition isAsciiUnit (c : N) : bool := c <? 128.
Definition isUpperLetter (c : N) : bool := (65 <=? c) && (c <=? 90).
Definition isLowerLetter (c : N) : bool := (97 <=? c) && (c <=? 122).

(** The conversions of an ASCII code unit. *)
Definition lowerLetter (c : N) : N := if isUpperLetter c then c + 32 else c.
Definition upperLetter (c : N) : N := if isLowerLetter c then c - 32 else c.

(** A host that leaves the code points outside ASCII as they are and
    compiles a class [C] to [class C { }]: an instance to run the
    definitions on. *)
Definition plainHost : Host :=
  {| unicodeLower := fun _ c _ => [c];
     unicodeUpper := fun _ c _ => [c];
     emitted := fun _ => (lit "class ", lit " { }") |}.

(* ================================================================= *)
(** * Properties *)

(** ** Strings *)

Lemma str_eqb_refl (s : jsstring) : str_eqb s s = true.
Proof.
  induction s as [|c s IH]; simpl; [reflexivity|].
  now rewrite N.eqb_refl, IH.
Qed.

Lemma str_eqb_eq (s t : jsstring) : str_eqb s t = true <-> s = t.
Proof.
  split; [|intros ->; apply str_eqb_refl].
  revert t; induction s as [|c s IH]; intros [|d t]; simpl; try easy.
  rewrite andb_true_iff, N.eqb_eq. intros [-> E]. f_equal. now apply IH.
Qed.

(** ** The matcher on the two literals *)

Section Matcher.
Import RegExp.

Lemma searchFrom_Bol_later (p : pattern) (s : jsstring) :
  searchFrom (Bol :: p) s false = false.
Proof. induction s as [|c s IH]; simpl; [reflexivity | exact IH]. Qed.

(** A literal that starts with [^] matches at index 0 or nowhere. *)
Lemma test_anchored (p : pattern) (s : jsstring) :
  RegExp.test (Bol :: p) s = matchHere p s true.
Proof.
  unfold RegExp.test. destruct s as [|c s]; simpl.
  - apply orb_false_r.
  - now rewrite searchFrom_Bol_later, orb_false_r.
Qed.

Lemma blank_loop (s : jsstring) (b : bool) :
  repeat (accepts ClassS) false (matchHere [Eol]) s b = forallb isSpace s.
Proof.
  revert b; induction s as [|c s IH]; intros b; simpl; [reflexivity|].
  now rewrite IH, orb_false_r.
Qed.

(** [/^\s*$/] matches exactly the strings made of white space. *)
Lemma re_blank_spec (s : jsstring) :
  RegExp.test re_blank s = forallb isSpace s.
Proof. unfold re_blank. rewrite test_anchored. apply blank_loop. Qed.

Lemma ends_well_cons (c : N) (s : jsstring) :
  ends_well (c :: s) =
  match s with
  | [] => negb (isSpace c)
  | _ :: _ => negb (isLineTerminator c) && ends_well s
  end.
Proof.
  unfold ends_well. destruct s as [|c' s']; [simpl; apply andb_true_r|].
  change (rev (c :: c' :: s')) with (rev (c' :: s') ++ [c]).
  destruct (rev (c' :: s')) as [|d m] eqn:E.
  - apply (f_equal (@List.length N)) in E. rewrite length_rev in E. discriminate.
  - simpl. rewrite forallb_app. simpl.
    destruct (isSpace d), (isLineTerminator c),
      (forallb (fun x => negb (isLineTerminator x)) m); reflexivity.
Qed.

Lemma trimmed_loop (s : jsstring) (b : bool) :
  repeat (accepts Dot) true (matchHere [One NotClassS; Eol]) s b
  = ends_well s.
Proof.
  revert b; induction s as [|c s IH]; intros b; [reflexivity|].
  rewrite ends_well_cons. cbn [repeat]. rewrite IH.
  destruct s as [|c' s']; cbn.
  - destruct (isSpace c), (isLineTerminator c); reflexivity.
  - now rewrite andb_false_r.
Qed.

(** [/^[^\s].*?[^\s]$/] matches exactly the strings of at least two
    code units whose first and last are not white space and whose inner
    code units are not line terminators. *)
Lemma re_trimmed_spec (s : jsstring) :
  RegExp.test re_trimmed s = trimmed_line s.
Proof.
  unfold re_trimmed. rewrite test_anchored.
  destruct s as [|c s]; [reflexivity|].
  cbn [matchHere]. rewrite trimmed_loop.
  unfold ends_well, trimmed_line, accepts.
  destruct (rev s) as [|d m]; [apply andb_false_r|].
  now rewrite andb_assoc.
Qed.

End Matcher.

(** ** The string predicates *)

Section PredicateFacts.
Context `{Host}.
Variable W : Type.

Lemma NotEmpty_test (s : jsstring) :
  test (instance (@NotEmpty _ W)) s = negb (str_eqb s []).
Proof. reflexivity. Qed.

Lemma NotBlank_test (s : jsstring) :
  test (instance (@NotBlank _ W)) s = negb (forallb isSpace s).
Proof. cbn. now rewrite re_blank_spec. Qed.

(** What [Trimmed] computes, for every string. *)
Lemma Trimmed_test (s : jsstring) :
  test (instance (@Trimmed _ W)) s = trimmed_line s.
Proof. cbn. apply re_trimmed_spec. Qed.

Lemma trimmed_line_shape (s : jsstring) :
  trimmed_line s = true -> trimmed_shape s = true.
Proof.
  destruct s as [|c s]; [easy|]. unfold trimmed_line, trimmed_shape.
  destruct (rev s) as [|d m]; [easy|].
  rewrite andb_true_iff. tauto.
Qed.

Lemma forallb_rev_tail (f : N -> bool) (s : jsstring) (d : N) (m : jsstring) :
  forallb f s = true -> rev s = d :: m -> forallb f m = true.
Proof.
  intros F E. rewrite forallb_forall in *. intros x I. apply F.
  apply in_rev. rewrite E. now right.
Qed.

(** On the strings without a line terminator [Trimmed] is the
    described test. *)
Lemma Trimmed_test_one_line (s : jsstring) :
  forallb (fun x => negb (isLineTerminator x)) s = true ->
  test (instance (@Trimmed _ W)) s = trimmed_shape s.
Proof.
  intros L. rewrite Trimmed_test.
  destruct s as [|c s]; [reflexivity|]. unfold trimmed_line, trimmed_shape.
  simpl in L. apply andb_true_iff in L as [_ L].
  destruct (rev s) as [|d m] eqn:E; [reflexivity|].
  rewrite (forallb_rev_tail _ s d m L E). apply andb_true_r.
Qed.

(** A string of one code unit fails [Trimmed]. *)
Lemma Trimmed_single (c : N) : test (instance (@Trimmed _ W)) [c] = false.
Proof. now rewrite Trimmed_test. Qed.

(** C4, at the string [a], line feed, [b]: it has three code units,
    its first and its last are not white space, so the described test
    accepts it, and [Trimmed.test] answers false, because [.] does not
    match the line feed in between. *)
Theorem Trimmed_rejects_inner_line_feed :
  trimmed_shape [97; 10; 98] = true
  /\ test (instance (@Trimmed _ W)) [97; 10; 98] = false.
Proof. split; reflexivity. Qed.

(** C9: the concrete scenarios of [NotEmpty], [NotBlank] and
    [LowerCase]: the empty string is not [NotEmpty] and [x] is; the
    empty string and three spaces are not [NotBlank] and [ a ] is;
    [abc] is [LowerCase] and [Abc] is not. *)
Theorem string_predicate_scenarios :
  test (instance (@NotEmpty _ W)) (lit "") = false
  /\ test (instance (@NotEmpty _ W)) (lit "x") = true
  /\ test (instance (@NotBlank _ W)) (lit "") = false
  /\ test (instance (@NotBlank _ W)) (lit "   ") = false
  /\ test (instance (@NotBlank _ W)) (lit " a ") = true
  /\ test (instance (@LowerCase _ W)) (lit "abc") = true
  /\ test (instance (@LowerCase _ W)) (lit "Abc") = false.
Proof. repeat split; reflexivity. Qed.

(** Induction on a string read one or two code units at a time. *)
Lemma string_pair_ind (P : jsstring -> Prop) :
  P [] -> (forall c, P [c]) ->
  (forall c d s, P s -> P (d :: s) -> P (c :: d :: s)) ->
  forall s, P s.
Proof.
  intros P0 P1 P2 s.
  enough (E : P s /\ forall c, P (c :: s)) by apply E.
  induction s as [|d s [IH1 IH2]]; split; auto.
Qed.

Lemma encodeCodePoint_pair (c d : N) :
  isLeadingSurrogate c = true -> isTrailingSurrogate d = true ->
  encodeCodePoint (pairToCodePoint c d) = [c; d].
Proof.
  unfold isLeadingSurrogate, isTrailingSurrogate, encodeCodePoint,
    pairToCodePoint.
  rewrite !andb_true_iff, !N.leb_le. intros [C1 C2] [D1 D2].
  assert (L : ((c - 55296) * 1024 + (d - 56320) + 65536 <? 65536) = false)
    by (apply N.ltb_ge; lia).
  rewrite L.
  replace ((c - 55296) * 1024 + (d - 56320) + 65536 - 65536)
    with ((d - 56320) + (c - 55296) * 1024) by lia.
  rewrite N.div_add by lia. rewrite N.Div0.mod_add.
  rewrite N.div_small, N.mod_small by lia.
  f_equal; [|f_equal]; lia.
Qed.

Lemma StringToCodePoints_two (c d : N) (s : jsstring) :
  StringToCodePoints (c :: d :: s) =
  if isLeadingSurrogate c && isTrailingSurrogate d
  then pairToCodePoint c d :: StringToCodePoints s
  else c :: StringToCodePoints (d :: s).
Proof. reflexivity. Qed.

(** Decoding a string into code points and encoding them gives the
    string again, lone surrogates included. *)
Lemma encode_decode (s : jsstring) :
  forallb isCodeUnit s = true ->
  CodePointsToString (StringToCodePoints s) = s.
Proof.
  induction s as [| c | c d s IH1 IH2] using string_pair_ind; intros F.
  - reflexivity.
  - cbn in *. unfold encodeCodePoint, isCodeUnit in *.
    apply andb_true_iff in F as [-> _]. reflexivity.
  - cbn [forallb] in F. apply andb_true_iff in F as [Fc F].
    rewrite StringToCodePoints_two.
    destruct (isLeadingSurrogate c && isTrailingSurrogate d) eqn:E.
    + apply andb_true_iff in E as [Ec Ed].
      cbn [forallb] in F. apply andb_true_iff in F as [_ F].
      change (CodePointsToString (pairToCodePoint c d :: StringToCodePoints s))
        with (encodeCodePoint (pairToCodePoint c d)
              ++ CodePointsToString (StringToCodePoints s)).
      now rewrite (encodeCodePoint_pair c d Ec Ed), (IH1 F).
    + change (CodePointsToString (c :: StringToCodePoints (d :: s)))
        with (encodeCodePoint c
              ++ CodePointsToString (StringToCodePoints (d :: s))).
      rewrite (IH2 F). unfold encodeCodePoint, isCodeUnit in *.
      now rewrite Fc.
Qed.

Lemma convertCase_fixed (f : list N -> N -> list N -> list N)
      (before cps : list N) :
  Forall (fun c => forall b a, f b c a = [c]) cps ->
  convertCase f before cps = cps.
Proof.
  intros F. revert before. induction F as [|c cps Fc _ IH]; intros before.
  - reflexivity.
  - cbn. now rewrite Fc, IH.
Qed.

Lemma caseless_toLowerCase (s : jsstring) :
  forallb isCodeUnit s = true ->
  Forall caseless (StringToCodePoints s) -> toLowerCase s = s.
Proof.
  intros U F. unfold toLowerCase. rewrite convertCase_fixed.
  - now apply encode_decode.
  - eapply Forall_impl; [|exact F]. intros c Hc b a. apply Hc.
Qed.

Lemma caseless_toUpperCase (s : jsstring) :
  forallb isCodeUnit s = true ->
  Forall caseless (StringToCodePoints s) -> toUpperCase s = s.
Proof.
  intros U F. unfold toUpperCase. rewrite convertCase_fixed.
  - now apply encode_decode.
  - eapply Forall_impl; [|exact F]. intros c Hc b a. apply Hc.
Qed.

(** The digits, the space and the other ASCII code points that are not
    letters are caseless, whatever the host. *)
Lemma ascii_non_letter_caseless (c : N) :
  c < 128 -> negb ((65 <=? c) && (c <=? 90)) = true ->
  negb ((97 <=? c) && (c <=? 122)) = true -> caseless c.
Proof.
  intros B U L before after. unfold lowerPoint, upperPoint.
  apply negb_true_iff in U, L. rewrite U, L.
  apply N.ltb_lt in B. rewrite B. now split.
Qed.

End PredicateFacts.

(** ** The engine *)

Section EngineFacts.
Variable A : Type.
Variable W : Type.
Context `{Show A}.

Implicit Types (a : A) (w : W) (x t u : Ctor A W) (xs : list (Ctor A W)).

(** One turn of the loop. *)
Lemma guardImpl_cons a x xs w :
  guardImpl a (x :: xs) w =
  if holds a x then guardImpl a xs (step_world a w x)
  else (Normal false, step_world a w x).
Proof.
  cbn [guardImpl]. unfold bind, new, call_test, holds, step_world, ret.
  now destruct (test (instance x) a).
Qed.

(** What a call of [guardImpl] returns and what it leaves behind. *)
Lemma guardImpl_run a xs w :
  guardImpl a xs w =
  (Normal (forallb (holds a) xs), fold_left (step_world a) (evaluated a xs) w).
Proof.
  revert w; induction xs as [|x xs IH]; intros w; [reflexivity|].
  rewrite guardImpl_cons. cbn [forallb evaluated].
  destruct (holds a x); cbn [andb]; [apply IH | reflexivity].
Qed.

Lemma evaluated_all a xs :
  forallb (holds a) xs = true -> evaluated a xs = xs.
Proof.
  induction xs as [|x xs IH]; cbn; [reflexivity|].
  rewrite andb_true_iff. intros [-> F]. now rewrite IH.
Qed.

(** The classes behind a failing one are not among the evaluated. *)
Lemma evaluated_firstn a xs (i : nat) x :
  nth_error xs i = Some x -> holds a x = false ->
  evaluated a xs = evaluated a (firstn (S i) xs).
Proof.
  revert i; induction xs as [|y xs IH]; intros i N F.
  - now destruct i.
  - destruct i as [|i]; cbn in N.
    + injection N as ->. cbn. now rewrite F.
    + change (firstn (S (S i)) (y :: xs)) with (y :: firstn (S i) xs).
      cbn [evaluated]. destruct (holds a y); [|reflexivity].
      f_equal. now apply IH.
Qed.

Lemma forallb_firstn_failing a xs (i : nat) x :
  nth_error xs i = Some x -> holds a x = false ->
  forallb (holds a) xs = false /\ forallb (holds a) (firstn (S i) xs) = false.
Proof.
  revert i; induction xs as [|y xs IH]; intros i N F.
  - now destruct i.
  - destruct i as [|i]; cbn in N.
    + injection N as ->. cbn. now rewrite F.
    + change (firstn (S (S i)) (y :: xs)) with (y :: firstn (S i) xs).
      cbn [forallb]. destruct (IH i N F) as [-> ->].
      now rewrite andb_false_r.
Qed.

(** [guardImpl] does not look behind a failing predicate. *)
Lemma guardImpl_firstn a xs w (i : nat) x :
  nth_error xs i = Some x -> holds a x = false ->
  guardImpl a xs w = guardImpl a (firstn (S i) xs) w.
Proof.
  intros N F. rewrite !guardImpl_run.
  destruct (forallb_firstn_failing a xs i x N F) as [-> ->].
  now rewrite (evaluated_firstn a xs i x N F).
Qed.

Lemma lift_run a xs w :
  lift a xs w =
  (if forallb (holds a) xs then Normal a else Throw (refinementError xs a),
   fold_left (step_world a) (evaluated a xs) w).
Proof.
  unfold lift, bind. rewrite guardImpl_run.
  now destruct (forallb (holds a) xs).
Qed.

Lemma lifts_run a xs w :
  lifts a xs w =
  (if forallb (holds a) xs then Normal a else Throw (refinementError xs a),
   fold_left (step_world a) (evaluated a xs) w).
Proof. exact (lift_run a xs w). Qed.

Lemma forallb_holds_false a xs :
  forallb (holds a) xs = false <-> exists x, In x xs /\ holds a x = false.
Proof.
  split.
  - induction xs as [|y xs IH]; cbn; [discriminate|].
    destruct (holds a y) eqn:E; cbn.
    + intros F. destruct (IH F) as (x & I & Fx). exists x. auto.
    + intros _. exists y. auto.
  - intros (x & I & Fx).
    destruct (forallb (holds a) xs) eqn:E; [|reflexivity].
    rewrite forallb_forall in E. rewrite (E x I) in Fx. discriminate.
Qed.

(** C1: [guardImpl] returns a boolean, which is true if and only if
    every predicate of the list holds of the value; for the empty list
    it returns true. *)
Theorem guardImpl_true_iff_all a xs w :
  (exists b : bool,
      fst (guardImpl a xs w) = Normal b
      /\ (b = true <-> forall x, In x xs -> test (instance x) a = true))
  /\ fst (guardImpl a [] w) = Normal true.
Proof.
  split; [|reflexivity].
  exists (forallb (holds a) xs). rewrite guardImpl_run. split; [reflexivity|].
  apply forallb_forall.
Qed.

End EngineFacts.

(** ** The message of a failure *)

Lemma occur_after (names : list jsstring) (p s : jsstring) :
  occur_in_order names s -> occur_in_order names (p ++ s).
Proof.
  destruct names as [|n names]; [easy|].
  intros (pre & post & -> & O). exists (p ++ pre), post.
  now rewrite <- app_assoc.
Qed.

Lemma occur_app (ns1 ns2 : list jsstring) (s1 s2 : jsstring) :
  occur_in_order ns1 s1 -> occur_in_order ns2 s2 ->
  occur_in_order (ns1 ++ ns2) (s1 ++ s2).
Proof.
  revert s1; induction ns1 as [|n ns1 IH]; intros s1 O1 O2.
  - now apply occur_after.
  - destruct O1 as (pre & post & -> & O1). exists pre, (post ++ s2).
    split; [now rewrite <- !app_assoc | now apply IH].
Qed.

Lemma occur_one (n pre post : jsstring) :
  occur_in_order [n] (pre ++ n ++ post).
Proof. now exists pre, post. Qed.

Section MessageFacts.
Variable A : Type.
Variable W : Type.
Context `{Show A}.

Implicit Types (a : A) (w : W) (x t u : Ctor A W) (xs : list (Ctor A W)).

(** The rendering of the array shows the name of every class, in the
    order of the array. *)
Lemma Array_toString_names xs :
  occur_in_order (map ctor_name xs) (Array_toString xs).
Proof.
  unfold Array_toString.
  induction xs as [|x xs IH]; [exact I|].
  destruct xs as [|y ys].
  - apply occur_one.
  - change (occur_in_order ([ctor_name x] ++ map ctor_name (y :: ys))
              (Function_toString x
               ++ (lit "," ++ join (map Function_toString (y :: ys))))).
    apply occur_app; [apply occur_one | now apply occur_after].
Qed.

Lemma refinementError_names xs a :
  occur_in_order (map ctor_name xs ++ [ToString a])
                 (message (refinementError xs a)).
Proof.
  cbn [message refinementError]. apply occur_after.
  apply occur_app; [apply Array_toString_names|].
  apply occur_after. exact (occur_one (ToString a) [] (lit ".")).
Qed.

(** C3: when a predicate of the list fails, [lift] and [lifts] return
    nothing and throw the error whose message is the text
    [Refinement error: ], the rendering of the whole array of classes,
    [: ], the rendering of the value and [.]; the name of every class
    of the list, not of the failing one alone, occurs in it in the
    order of the list, and after them the rendering of the value. *)
Theorem lift_failure_content a xs w :
  (exists x, In x xs /\ test (instance x) a = false) ->
  exists e : Error,
    thrown (lift a xs w) = Some e
    /\ thrown (lifts a xs w) = Some e
    /\ returned (lift a xs w) = None
    /\ returned (lifts a xs w) = None
    /\ message e = lit "Refinement error: " ++ Array_toString xs
                   ++ lit ": " ++ ToString a ++ lit "."
    /\ occur_in_order (map ctor_name xs ++ [ToString a]) (message e).
Proof.
  intros F. apply (forallb_holds_false A W) in F.
  exists (refinementError xs a).
  rewrite lifts_run, lift_run, F. unfold thrown, returned. cbn [fst].
  repeat split. apply refinementError_names.
Qed.

(** C8: when [lift] returns, it returns the value it was given, and
    the world is the one the constructors and tests of the predicates
    left, in their order: the engine writes nothing itself, so with
    predicates that write nothing the world, the value in it included,
    is as before. *)
Theorem lift_returns_its_argument a xs w (v : Refined A) (w' : W) :
  lift a xs w = (Normal v, w') ->
  v = a
  /\ w' = fold_left (step_world a) xs w
  /\ ((forall x w0, In x xs -> step_world a w0 x = w0) -> w' = w).
Proof.
  rewrite lift_run. destruct (forallb (holds a) xs) eqn:F; [|discriminate].
  rewrite (evaluated_all A W a xs F). intros E. injection E as <- <-.
  repeat split. intros P. clear F. revert w.
  induction xs as [|x xs IH]; intros w; [reflexivity|].
  cbn [fold_left]. rewrite (P x w (or_introl eq_refl)).
  apply IH. intros y w0 I. apply P. now right.
Qed.

(** C6: [lifts(lift(a, t), u)] and [lift(a, t, u)] return the same
    thing, which is the value [a] when both predicates hold and nothing
    otherwise; each throws exactly when one of the two predicates fails;
    and they leave the same world. *)
Theorem lift_then_lifts_as_lift_both a t u w :
  returned (liftThenLifts a t u w) = returned (lift a [t; u] w)
  /\ returned (lift a [t; u] w)
     = (if test (instance t) a && test (instance u) a then Some a else None)
  /\ (thrown (liftThenLifts a t u w) <> None
      <-> test (instance t) a = false \/ test (instance u) a = false)
  /\ (thrown (lift a [t; u] w) <> None
      <-> test (instance t) a = false \/ test (instance u) a = false)
  /\ snd (liftThenLifts a t u w) = snd (lift a [t; u] w).
Proof.
  unfold liftThenLifts, bind. rewrite !lift_run.
  cbn [forallb evaluated fold_left]. fold (holds a t) (holds a u).
  destruct (holds a t) eqn:Ht; cbn [andb].
  - rewrite lifts_run. cbn [forallb evaluated fold_left].
    destruct (holds a u) eqn:Hu; unfold returned, thrown; cbn;
      repeat split; try easy; try (intros _; now right);
      try (intros [E|E]; discriminate).
  - unfold returned, thrown; cbn; repeat split; try easy;
      intros _; now left.
Qed.

(** The two differ in what they say when they throw: the chain names
    the predicates of the call that failed, the single call all of
    them. *)
Lemma lift_then_lifts_message a t u w :
  test (instance t) a = true -> test (instance u) a = false ->
  thrown (liftThenLifts a t u w) = Some (refinementError [u] a)
  /\ thrown (lift a [t; u] w) = Some (refinementError [t; u] a).
Proof.
  intros Ht Hu. unfold liftThenLifts, bind. rewrite !lift_run.
  cbn [forallb]. unfold holds. rewrite Ht, Hu. cbn [andb].
  rewrite lifts_run. cbn [forallb]. unfold holds. rewrite Hu.
  split; reflexivity.
Qed.

End MessageFacts.

(** C7: [liftUnsafe] ends normally with the value it was given and
    leaves the world as it was, whatever the value; in a world with a
    record of the predicates instantiated and tested, the record is as
    before. *)
Theorem liftUnsafe_is_identity (A W : Type) (a : A) (w : W) (log : list Event) :
  liftUnsafe a w = (Normal a, w)
  /\ liftUnsafe a (w, log) = (Normal a, (w, log))
  /\ thrown (liftUnsafe a w) = None.
Proof. repeat split. Qed.

(** ** What the probes record *)

Section TracingFacts.
Variable A : Type.
Variable W : Type.

Implicit Types (a : A) (w : W) (x : Ctor A W) (xs : list (Ctor A W)).

Lemma holds_probe a (k : nat) x : holds a (probe k x) = holds a x.
Proof. reflexivity. Qed.

(** The record of a call: the probes of the evaluated classes, each
    instantiated and then tested, in the order of the list. *)
Lemma trace_from a xs (k : nat) w (l : list Event) :
  snd (snd (guardImpl a (instrumentFrom k xs) (w, l)))
  = l ++ recorded (seq k (List.length (evaluated a xs))).
Proof.
  revert k w l; induction xs as [|x xs IH]; intros k w l.
  - cbn. now rewrite app_nil_r.
  - cbn [instrumentFrom]. rewrite guardImpl_cons, holds_probe.
    cbn [evaluated]. unfold step_world at 1 2. cbn [probe new_effect instance
      test_effect fst snd].
    destruct (holds a x).
    + rewrite IH. cbn [List.length seq recorded flat_map].
      now rewrite <- !app_assoc.
    + cbn. now rewrite <- !app_assoc.
Qed.

Lemma trace_exact a xs w :
  trace a xs w = recorded (seq 0 (List.length (evaluated a xs))).
Proof. unfold trace, instrument. now rewrite trace_from. Qed.

Lemma recorded_index (js : list nat) (e : Event) :
  In e (recorded js) -> In (event_index e) js.
Proof.
  unfold recorded. rewrite in_flat_map. intros (j & I & [<-|[<-|[]]]); exact I.
Qed.

Lemma evaluated_length a xs : (List.length (evaluated a xs) <= List.length xs)%nat.
Proof.
  induction xs as [|x xs IH]; cbn; [lia|].
  destruct (holds a x); cbn; lia.
Qed.

Lemma evaluated_upto a xs (i : nat) x :
  nth_error xs i = Some x -> holds a x = false ->
  (List.length (evaluated a xs) <= S i)%nat.
Proof.
  intros N F. rewrite (evaluated_firstn A W a xs i x N F).
  etransitivity; [apply evaluated_length|]. rewrite length_firstn. lia.
Qed.

(** C5: when the predicate at position [i] of the list fails, the call
    returns false, is the call on the list cut behind position [i], and
    no class at a later position is instantiated or tested. *)
Theorem guardImpl_short_circuits a xs w (i : nat) x :
  nth_error xs i = Some x ->
  test (instance x) a = false ->
  (forall j : nat, (i < j)%nat ->
     ~ In (Instantiated j) (trace a xs w) /\ ~ In (Tested j) (trace a xs w))
  /\ guardImpl a xs w = guardImpl a (firstn (S i) xs) w
  /\ fst (guardImpl a xs w) = Normal false.
Proof.
  intros N F. split; [|split].
  - intros j L. rewrite trace_exact.
    pose proof (evaluated_upto a xs i x N F) as B.
    split; intros I; apply recorded_index in I; apply in_seq in I; cbn in I; lia.
  - now apply (guardImpl_firstn A W a xs w i x).
  - rewrite guardImpl_run. cbn [fst].
    now destruct (forallb_firstn_failing A W a xs i x N F) as [-> _].
Qed.

End TracingFacts.

(** ** Strings without case *)

Section CaselessFacts.
Context `{Host}.
Variable W : Type.

(** C10: a string whose characters, its code points, have no case
    (neither conversion changes any of them), the empty string among
    them, passes [LowerCase.test] and [UpperCase.test] alike, and
    [guard] with both predicates accepts it. *)
Theorem caseless_passes_both_cases (s : jsstring) (w : W) :
  forallb isCodeUnit s = true ->
  Forall caseless (StringToCodePoints s) ->
  test (instance (@LowerCase _ W)) s = true
  /\ test (instance (@UpperCase _ W)) s = true
  /\ guard s [LowerCase; UpperCase] w = (Normal true, w).
Proof.
  intros U F.
  assert (L : test (instance (@LowerCase _ W)) s = true).
  { cbn. rewrite (caseless_toLowerCase s U F). apply str_eqb_refl. }
  assert (P : test (instance (@UpperCase _ W)) s = true).
  { cbn. rewrite (caseless_toUpperCase s U F). apply str_eqb_refl. }
  repeat split; try assumption.
  unfold guard. rewrite guardImpl_run. cbn [forallb]. unfold holds.
  rewrite L, P. cbn [andb evaluated]. unfold holds. rewrite L, P. reflexivity.
Qed.

(** The empty string and [123], on every host. *)
Lemma empty_and_digits_pass_both_cases :
  test (instance (@LowerCase _ W)) (lit "") = true
  /\ test (instance (@UpperCase _ W)) (lit "") = true
  /\ test (instance (@LowerCase _ W)) (lit "123") = true
  /\ test (instance (@UpperCase _ W)) (lit "123") = true.
Proof. repeat split; reflexivity. Qed.

(** A cased character outside the basic plane is seen as one code
    point: where the host maps U+10400 to U+10428, the string of its
    two surrogates is not lower case. *)
Lemma LowerCase_rejects_cased_pair :
  unicodeLower [] 66560 [] = [66600] ->
  test (instance (@LowerCase _ W)) [55297; 56320] = false.
Proof.
  intros E. cbn [test instance LowerCase declared pureCtor].
  unfold toLowerCase. cbn [StringToCodePoints].
  change (isLeadingSurrogate 55297 && isTrailingSurrogate 56320) with true.
  cbn iota. change (pairToCodePoint 55297 56320) with 66560.
  cbn [convertCase]. change (lowerPoint [] 66560 []) with (unicodeLower [] 66560 []).
  rewrite E. reflexivity.
Qed.

End CaselessFacts.

(** ** The theorems at concrete arguments *)

Local Abbreviation notBlank := (@NotBlank plainHost unit).
Local Abbreviation lowerCase := (@LowerCase plainHost unit).
Local Abbreviation upperCase := (@UpperCase plainHost unit).
Local Abbreviation notEmpty := (@NotEmpty plainHost unit).

(** The scenarios of the documentation of [guard], [lift] and [lifts]. *)
Example guard_jabberwock :
  guard (lit "jabberwock") [notBlank; lowerCase] tt = (Normal true, tt)
  /\ guard (lit "SHOUT") [notBlank; lowerCase] tt = (Normal false, tt).
Proof. split; reflexivity. Qed.

Example lift_jabberwock :
  lift (lit "jabberwock") [notBlank; lowerCase] tt
  = (Normal (lit "jabberwock"), tt)
  /\ liftThenLifts (lit "jabberwock") notBlank lowerCase tt
     = (Normal (lit "jabberwock"), tt).
Proof. split; reflexivity. Qed.

Example trace_SHOUT :
  trace (lit "SHOUT") [notBlank; lowerCase; notEmpty] tt
  = [Instantiated 0; Tested 0; Instantiated 1; Tested 1].
Proof. reflexivity. Qed.

Lemma lift_failure_content_at_SHOUT :
  exists e : Error,
    thrown (lift (lit "SHOUT") [notBlank; lowerCase] tt) = Some e
    /\ thrown (lifts (lit "SHOUT") [notBlank; lowerCase] tt) = Some e
    /\ returned (lift (lit "SHOUT") [notBlank; lowerCase] tt) = None
    /\ returned (lifts (lit "SHOUT") [notBlank; lowerCase] tt) = None
    /\ message e
       = lit "Refinement error: class NotBlank { },class LowerCase { }: SHOUT."
    /\ occur_in_order [lit "NotBlank"; lit "LowerCase"; lit "SHOUT"] (message e).
Proof.
  refine (lift_failure_content jsstring unit (lit "SHOUT")
            [notBlank; lowerCase] tt _).
  exists lowerCase. split; [right; left; reflexivity | reflexivity].
Defined.

Lemma lift_returns_its_argument_at_jabberwock :
  lit "jabberwock" = lit "jabberwock"
  /\ tt = fold_left (step_world (lit "jabberwock")) [notBlank; lowerCase] tt
  /\ ((forall x w0, In x [notBlank; lowerCase] ->
         step_world (lit "jabberwock") w0 x = w0) -> tt = tt).
Proof.
  apply (lift_returns_its_argument jsstring unit (lit "jabberwock")
           [notBlank; lowerCase] tt (lit "jabberwock") tt).
  reflexivity.
Defined.

Lemma guardImpl_short_circuits_at_SHOUT :
  (forall j : nat, (1 < j)%nat ->
     ~ In (Instantiated j)
         (trace (lit "SHOUT") [notBlank; lowerCase; notEmpty] tt)
     /\ ~ In (Tested j)
         (trace (lit "SHOUT") [notBlank; lowerCase; notEmpty] tt))
  /\ guardImpl (lit "SHOUT") [notBlank; lowerCase; notEmpty] tt
     = guardImpl (lit "SHOUT") [notBlank; lowerCase] tt
  /\ fst (guardImpl (lit "SHOUT") [notBlank; lowerCase; notEmpty] tt)
     = Normal false.
Proof.
  apply (guardImpl_short_circuits jsstring unit (lit "SHOUT")
           [notBlank; lowerCase; notEmpty] tt 1 lowerCase);
    reflexivity.
Defined.

Lemma caseless_passes_both_cases_at_123 :
  test (instance lowerCase) (lit "123") = true
  /\ test (instance upperCase) (lit "123") = true
  /\ guard (lit "123") [lowerCase; upperCase] tt = (Normal true, tt).
Proof.
  apply (@caseless_passes_both_cases plainHost unit (lit "123") tt).
  - reflexivity.
  - repeat constructor; reflexivity.
Defined.

(* ================================================================= *)
(** * Further properties of the predicates *)

Lemma forallb_false_exists (f : N -> bool) (s : jsstring) :
  forallb f s = false <-> exists c, In c s /\ f c = false.
Proof.
  induction s as [|d s IH]; cbn.
  - split; [discriminate | now intros (c & [] & _)].
  - rewrite andb_false_iff, IH. split.
    + intros [F | (c & I & F)]; [exists d | exists c]; auto.
    + intros (c & [<- | I] & F); [now left | right; now exists c].
Qed.

Lemma forallb_rev (f : N -> bool) (s : jsstring) :
  forallb f (rev s) = forallb f s.
Proof.
  induction s as [|c s IH]; [reflexivity|].
  cbn. rewrite forallb_app, IH. cbn. rewrite andb_true_r. apply andb_comm.
Qed.

(** [trimmed_line] spelt out: a first code unit, a middle, a last code
    unit. *)
Lemma trimmed_line_split (s : jsstring) :
  trimmed_line s = true <->
  exists (c : N) (m : jsstring) (d : N),
    s = c :: m ++ [d]
    /\ isSpace c = false /\ isSpace d = false
    /\ forallb (fun x => negb (isLineTerminator x)) m = true.
Proof.
  split.
  - destruct s as [|c s]; [discriminate|]. unfold trimmed_line.
    destruct (rev s) as [|d m] eqn:E; [discriminate|].
    rewrite !andb_true_iff, !negb_true_iff. intros [[Hc Hd] Hm].
    exists c, (rev m), d. repeat split; try assumption.
    + f_equal. rewrite <- (rev_involutive s), E. reflexivity.
    + now rewrite forallb_rev.
  - intros (c & m & d & -> & Hc & Hd & Hm). unfold trimmed_line.
    rewrite rev_app_distr. cbn. rewrite Hc, Hd, forallb_rev, Hm. reflexivity.
Qed.

(** A string of ASCII is its own list of code points. *)
Lemma decode_ascii (s : jsstring) :
  forallb isAsciiUnit s = true -> StringToCodePoints s = s.
Proof.
  induction s as [| c | c d s _ IH] using string_pair_ind; intros F;
    try reflexivity.
  rewrite StringToCodePoints_two.
  cbn [forallb] in F. apply andb_true_iff in F as [Fc F].
  assert (E : isLeadingSurrogate c = false).
  { unfold isLeadingSurrogate, isAsciiUnit in *. apply N.ltb_lt in Fc.
    apply andb_false_iff. left. apply N.leb_gt. lia. }
  rewrite E. cbn [andb]. now rewrite (IH F).
Qed.

Lemma encode_units (l : list N) :
  forallb isCodeUnit l = true -> CodePointsToString l = l.
Proof.
  induction l as [|c l IH]; cbn; [reflexivity|].
  rewrite andb_true_iff. intros [Fc F]. unfold encodeCodePoint, isCodeUnit in *.
  rewrite Fc. cbn. f_equal. now apply IH.
Qed.

Lemma lower_ascii_points (h : Host) (before s : jsstring) :
  forallb isAsciiUnit s = true ->
  convertCase lowerPoint before s = map lowerLetter s
  /\ forallb isCodeUnit (map lowerLetter s) = true.
Proof.
  revert before; induction s as [|c s IH]; intros before F; [now split|].
  cbn [forallb] in F. apply andb_true_iff in F as [Fc F].
  destruct (IH (c :: before) F) as [E U]. cbn [convertCase map forallb].
  rewrite E, U. unfold lowerPoint, lowerLetter, isUpperLetter, isAsciiUnit,
    isCodeUnit in *.
  destruct ((65 <=? c) && (c <=? 90)) eqn:L.
  - apply andb_true_iff in L as [_ L]. apply N.leb_le in L.
    split; [reflexivity|]. rewrite andb_true_r. apply N.ltb_lt. lia.
  - rewrite Fc. split; [reflexivity|]. rewrite andb_true_r.
    apply N.ltb_lt in Fc. apply N.ltb_lt. lia.
Qed.

Lemma upper_ascii_points (h : Host) (before s : jsstring) :
  forallb isAsciiUnit s = true ->
  convertCase upperPoint before s = map upperLetter s
  /\ forallb isCodeUnit (map upperLetter s) = true.
Proof.
  revert before; induction s as [|c s IH]; intros before F; [now split|].
  cbn [forallb] in F. apply andb_true_iff in F as [Fc F].
  destruct (IH (c :: before) F) as [E U]. cbn [convertCase map forallb].
  rewrite E, U. unfold upperPoint, upperLetter, isLowerLetter, isAsciiUnit,
    isCodeUnit in *.
  destruct ((97 <=? c) && (c <=? 122)) eqn:L.
  - apply andb_true_iff in L as [_ L]. apply N.leb_le in L.
    split; [reflexivity|]. rewrite andb_true_r. apply N.ltb_lt. lia.
  - rewrite Fc. split; [reflexivity|]. rewrite andb_true_r.
    apply N.ltb_lt in Fc. apply N.ltb_lt. lia.
Qed.

(** On ASCII the conversions change the letters and nothing else. *)
Lemma toLowerCase_ascii (h : Host) (s : jsstring) :
  forallb isAsciiUnit s = true -> toLowerCase s = map lowerLetter s.
Proof.
  intros F. unfold toLowerCase. rewrite (decode_ascii s F).
  destruct (lower_ascii_points h [] s F) as [-> U]. now apply encode_units.
Qed.

Lemma toUpperCase_ascii (h : Host) (s : jsstring) :
  forallb isAsciiUnit s = true -> toUpperCase s = map upperLetter s.
Proof.
  intros F. unfold toUpperCase. rewrite (decode_ascii s F).
  destruct (upper_ascii_points h [] s F) as [-> U]. now apply encode_units.
Qed.

Lemma lower_ascii (h : Host) (s : jsstring) :
  forallb isAsciiUnit s = true ->
  str_eqb s (toLowerCase s) = negb (existsb isUpperLetter s).
Proof.
  intros F. rewrite (toLowerCase_ascii h s F). clear F.
  induction s as [|c s IH]; [reflexivity|].
  cbn [map str_eqb existsb]. rewrite IH. unfold lowerLetter.
  destruct (isUpperLetter c) eqn:U; cbn.
  - assert (E : (c =? c + 32) = false) by (apply N.eqb_neq; lia).
    now rewrite E.
  - now rewrite N.eqb_refl.
Qed.

Lemma upper_ascii (h : Host) (s : jsstring) :
  forallb isAsciiUnit s = true ->
  str_eqb s (toUpperCase s) = negb (existsb isLowerLetter s).
Proof.
  intros F. rewrite (toUpperCase_ascii h s F). clear F.
  induction s as [|c s IH]; [reflexivity|].
  cbn [map str_eqb existsb]. rewrite IH. unfold upperLetter.
  destruct (isLowerLetter c) eqn:U; cbn.
  - unfold isLowerLetter in U. apply andb_true_iff in U as [U _].
    apply N.leb_le in U.
    assert (E : (c =? c - 32) = false) by (apply N.eqb_neq; lia).
    now rewrite E.
  - now rewrite N.eqb_refl.
Qed.

Section MorePredicateFacts.
Context `{Host}.
Variable W : Type.

(** X1: [NotBlank.test] accepts a string exactly when one of its code
    units is not white space; so it rejects the empty string and every
    string of white space, line terminators included. *)
Theorem NotBlank_iff_some_non_space (s : jsstring) :
  test (instance (@NotBlank _ W)) s = true
  <-> exists c, In c s /\ isSpace c = false.
Proof.
  rewrite NotBlank_test, negb_true_iff. apply forallb_false_exists.
Qed.

(** X2: [Trimmed.test] accepts exactly the strings made of a first code
    unit that is not white space, a middle without line terminator, and
    a last code unit that is not white space. *)
Theorem Trimmed_iff_first_middle_last (s : jsstring) :
  test (instance (@Trimmed _ W)) s = true
  <-> exists (c : N) (m : jsstring) (d : N),
        s = c :: m ++ [d]
        /\ isSpace c = false /\ isSpace d = false
        /\ forallb (fun x => negb (isLineTerminator x)) m = true.
Proof. rewrite Trimmed_test. apply trimmed_line_split. Qed.

(** X3: on a string without line terminator [Trimmed.test] is the test
    of its description: at least two code units, the first and the
    last not white space. *)
Theorem Trimmed_on_one_line (s : jsstring) :
  forallb (fun x => negb (isLineTerminator x)) s = true ->
  test (instance (@Trimmed _ W)) s = trimmed_shape s.
Proof.
  intros L. rewrite Trimmed_test.
  destruct (trimmed_shape s) eqn:E.
  - destruct s as [|c s]; [discriminate|]. unfold trimmed_shape in E.
    unfold trimmed_line. cbn in L. apply andb_true_iff in L as [_ L].
    destruct (rev s) as [|d m] eqn:R; [discriminate|].
    rewrite E. cbn. rewrite <- forallb_rev, R in L. cbn in L.
    now apply andb_true_iff in L as [_ L].
  - destruct (trimmed_line s) eqn:T; [|reflexivity].
    apply trimmed_line_shape in T. congruence.
Qed.

(** X4: a string that passes [Trimmed] passes [NotBlank] and
    [NotEmpty]. *)
Theorem Trimmed_implies_NotBlank_and_NotEmpty (s : jsstring) :
  test (instance (@Trimmed _ W)) s = true ->
  test (instance (@NotBlank _ W)) s = true
  /\ test (instance (@NotEmpty _ W)) s = true.
Proof.
  rewrite Trimmed_test, NotBlank_test, NotEmpty_test.
  intros T. apply trimmed_line_split in T as (c & m & d & -> & Hc & _).
  cbn. now rewrite Hc.
Qed.

(** X5: a string that passes [NotBlank] passes [NotEmpty]. *)
Theorem NotBlank_implies_NotEmpty (s : jsstring) :
  test (instance (@NotBlank _ W)) s = true ->
  test (instance (@NotEmpty _ W)) s = true.
Proof.
  rewrite NotBlank_test, NotEmpty_test. now destruct s.
Qed.

(** X6: on a string of ASCII [LowerCase.test] holds exactly when no
    code unit is one of the letters [A] to [Z]. *)
Theorem LowerCase_on_ascii (s : jsstring) :
  forallb isAsciiUnit s = true ->
  test (instance (@LowerCase _ W)) s = negb (existsb isUpperLetter s).
Proof. intros F. cbn. now apply lower_ascii. Qed.

(** X7: on a string of ASCII [UpperCase.test] holds exactly when no
    code unit is one of the letters [a] to [z]. *)
Theorem UpperCase_on_ascii (s : jsstring) :
  forallb isAsciiUnit s = true ->
  test (instance (@UpperCase _ W)) s = negb (existsb isLowerLetter s).
Proof. intros F. cbn. now apply upper_ascii. Qed.

(** X8: a string of ASCII passes [LowerCase] and [UpperCase] together
    only if it has no letter at all, and then it does. *)
Theorem both_cases_on_ascii_iff_no_letter (s : jsstring) :
  forallb isAsciiUnit s = true ->
  (test (instance (@LowerCase _ W)) s = true
   /\ test (instance (@UpperCase _ W)) s = true)
  <-> forallb (fun c => negb (isUpperLetter c || isLowerLetter c)) s = true.
Proof.
  intros F. cbn [test instance LowerCase UpperCase declared pureCtor].
  rewrite (lower_ascii _ s F), (upper_ascii _ s F). clear F.
  induction s as [|c s IH]; cbn; [tauto|].
  rewrite andb_true_iff, <- IH, !negb_true_iff, !orb_false_iff. tauto.
Qed.

(** X16: white space in front of a string or behind it does not
    change the answer of [NotBlank.test]. *)
Theorem NotBlank_ignores_padding (p s q : jsstring) :
  forallb isSpace p = true -> forallb isSpace q = true ->
  test (instance (@NotBlank _ W)) (p ++ s ++ q)
  = test (instance (@NotBlank _ W)) s.
Proof.
  intros P Q. rewrite !NotBlank_test, !forallb_app, P, Q.
  now rewrite andb_true_r.
Qed.

(** X17: [Trimmed.test] rejects every string that starts or ends with
    a white space code unit. *)
Theorem Trimmed_rejects_padded (c : N) (s : jsstring) :
  isSpace c = true ->
  test (instance (@Trimmed _ W)) (c :: s) = false
  /\ test (instance (@Trimmed _ W)) (s ++ [c]) = false.
Proof.
  intros Sc. rewrite !Trimmed_test. split.
  - unfold trimmed_line. rewrite Sc. now destruct (rev s).
  - destruct (trimmed_line (s ++ [c])) eqn:T; [|reflexivity].
    apply trimmed_line_split in T as (c' & m & d & E & _ & Hd & _).
    change (c' :: m ++ [d]) with ((c' :: m) ++ [d]) in E.
    apply app_inj_tail in E as [_ ->]. congruence.
Qed.

End MorePredicateFacts.

(* ================================================================= *)
(** * Further properties of the engine *)

Section MoreEngineFacts.
Variable A : Type.
Variable W : Type.
Context `{Show A}.

Implicit Types (a : A) (w : W) (x : Ctor A W) (xs ys : list (Ctor A W)).

(** A call on two lists in a row: the second is reached only when
    every predicate of the first holds. *)
Lemma guardImpl_app a xs ys w :
  guardImpl a (xs ++ ys) w =
  if forallb (holds a) xs
  then guardImpl a ys (fold_left (step_world a) xs w)
  else guardImpl a xs w.
Proof.
  revert w; induction xs as [|x xs IH]; intros w; [reflexivity|].
  cbn [app forallb fold_left]. rewrite !guardImpl_cons.
  destruct (holds a x); cbn [andb]; [apply IH | reflexivity].
Qed.

Lemma guardImpl_all a xs w :
  forallb (holds a) xs = true ->
  guardImpl a xs w = (Normal true, fold_left (step_world a) xs w).
Proof.
  intros F. rewrite guardImpl_run, F. now rewrite (evaluated_all A W a xs F).
Qed.

(** X10: [guard(a, ...xs) && guards(a, ...ys)] is [guard] on the two
    lists in a row: the same boolean and the same world. *)
Theorem guard_then_guards_is_guard_on_both a xs ys w :
  guardThenGuards a xs ys w = guard a (xs ++ ys) w.
Proof.
  unfold guardThenGuards, guard, guards, bind. rewrite guardImpl_app.
  destruct (forallb (holds a) xs) eqn:F.
  - now rewrite (guardImpl_all a xs w F).
  - rewrite guardImpl_run, F. reflexivity.
Qed.

(** X11: [lifts(lift(a, ...xs), ...ys)] and [lift] on the two lists in
    a row return the same thing, throw in the same cases and leave the
    same world, whatever the lengths of the lists. *)
Theorem lift_then_lifts_is_lift_on_both a xs ys w :
  returned (liftThenLiftsAll a xs ys w) = returned (lift a (xs ++ ys) w)
  /\ (thrown (liftThenLiftsAll a xs ys w) = None
      <-> thrown (lift a (xs ++ ys) w) = None)
  /\ snd (liftThenLiftsAll a xs ys w) = snd (lift a (xs ++ ys) w).
Proof.
  unfold liftThenLiftsAll, lifts, lift, bind. rewrite guardImpl_app.
  destruct (forallb (holds a) xs) eqn:F.
  - rewrite (guardImpl_all a xs w F). cbn [ret].
    destruct (guardImpl a ys (fold_left (step_world a) xs w)) as [[b|e] w'];
      [destruct b|]; unfold returned, thrown, ret, throw; cbn;
      repeat split; try easy.
  - rewrite guardImpl_run, F. unfold returned, thrown, throw. cbn.
    repeat split; intros E; discriminate.
Qed.


Lemma evaluated_first_failure a xs (i : nat) x :
  nth_error xs i = Some x -> holds a x = false ->
  forallb (holds a) (firstn i xs) = true ->
  List.length (evaluated a xs) = S i.
Proof.
  revert i; induction xs as [|y xs IH]; intros i N F P.
  - now destruct i.
  - destruct i as [|i]; cbn in N.
    + injection N as ->. cbn. now rewrite F.
    + cbn in P. apply andb_true_iff in P as [Py P].
      cbn [evaluated]. rewrite Py. cbn. f_equal. now apply IH.
Qed.

(** X14: when every predicate holds, each class of the list is
    instantiated once and its instance tested once, class after class
    in the order of the list. *)
Theorem trace_when_all_hold a xs w :
  (forall x, In x xs -> test (instance x) a = true) ->
  trace a xs w = recorded (seq 0 (List.length xs)).
Proof.
  intros P. rewrite trace_exact.
  assert (F : forallb (holds a) xs = true) by now apply forallb_forall.
  now rewrite (evaluated_all A W a xs F).
Qed.

(** X15: when the predicate at position [i] is the first that fails,
    the classes at the positions 0 to [i] are instantiated and tested,
    each once and in this order, and this is all. *)
Theorem trace_up_to_first_failure a xs w (i : nat) x :
  nth_error xs i = Some x ->
  test (instance x) a = false ->
  (forall y, In y (firstn i xs) -> test (instance y) a = true) ->
  trace a xs w = recorded (seq 0 (S i)).
Proof.
  intros N F P. rewrite trace_exact.
  assert (Q : forallb (holds a) (firstn i xs) = true) by now apply forallb_forall.
  now rewrite (evaluated_first_failure a xs i x N F Q).
Qed.

End MoreEngineFacts.

Section NilFacts.
Context `{Host}.
Variable A : Type.
Variable W : Type.
Context `{Show A}.

Implicit Types (a : A) (w : W) (xs ys : list (Ctor A W)).

(** X9: [Nil] holds of every value and does nothing else: with it
    alone [lift] returns its argument, and putting it anywhere in a
    list of predicates changes neither what [guard] gives, boolean and
    world, nor what [lift] returns. *)
Theorem Nil_is_neutral a xs ys w :
  lift a [Nil] w = (Normal a, w)
  /\ guard a (xs ++ Nil :: ys) w = guard a (xs ++ ys) w
  /\ returned (lift a (xs ++ Nil :: ys) w) = returned (lift a (xs ++ ys) w).
Proof.
  assert (G : guardImpl a (xs ++ Nil :: ys) w = guardImpl a (xs ++ ys) w).
  { rewrite !guardImpl_app. destruct (forallb (holds a) xs); [|reflexivity].
    now rewrite guardImpl_cons. }
  split; [reflexivity|]. split; [exact G|].
  unfold lift, bind. rewrite G.
  destruct (guardImpl a (xs ++ ys) w) as [[b|e] w']; [destruct b|]; reflexivity.
Qed.

End NilFacts.

(** ** The further properties at concrete arguments *)

Local Abbreviation trimmed := (@Trimmed plainHost unit).

Lemma Trimmed_on_one_line_at_a_b :
  test (instance trimmed) (lit "a b") = trimmed_shape (lit "a b").
Proof.
  apply (@Trimmed_on_one_line plainHost unit (lit "a b")). reflexivity.
Defined.

Lemma Trimmed_implies_NotBlank_and_NotEmpty_at_ab :
  test (instance notBlank) (lit "ab") = true
  /\ test (instance notEmpty) (lit "ab") = true.
Proof.
  apply (@Trimmed_implies_NotBlank_and_NotEmpty plainHost unit (lit "ab")).
  reflexivity.
Defined.

Lemma NotBlank_implies_NotEmpty_at_a :
  test (instance notEmpty) (lit " a ") = true.
Proof.
  apply (@NotBlank_implies_NotEmpty plainHost unit (lit " a ")). reflexivity.
Defined.

Lemma LowerCase_on_ascii_at_Abc :
  test (instance lowerCase) (lit "Abc")
  = negb (existsb isUpperLetter (lit "Abc")).
Proof.
  apply (@LowerCase_on_ascii plainHost unit (lit "Abc")). reflexivity.
Defined.

Lemma UpperCase_on_ascii_at_ABc :
  test (instance upperCase) (lit "ABc")
  = negb (existsb isLowerLetter (lit "ABc")).
Proof.
  apply (@UpperCase_on_ascii plainHost unit (lit "ABc")). reflexivity.
Defined.

Lemma both_cases_on_ascii_iff_no_letter_at_1a :
  (test (instance lowerCase) (lit "1a") = true
   /\ test (instance upperCase) (lit "1a") = true)
  <-> forallb (fun c => negb (isUpperLetter c || isLowerLetter c)) (lit "1a")
      = true.
Proof.
  apply (@both_cases_on_ascii_iff_no_letter plainHost unit (lit "1a")).
  reflexivity.
Defined.

Lemma NotBlank_ignores_padding_at_a :
  test (instance notBlank) (lit " " ++ lit "a" ++ [9; 10])
  = test (instance notBlank) (lit "a").
Proof.
  apply (@NotBlank_ignores_padding plainHost unit (lit " ") (lit "a") [9; 10]);
    reflexivity.
Defined.

Lemma Trimmed_rejects_padded_at_ab :
  test (instance trimmed) (32 :: lit "ab") = false
  /\ test (instance trimmed) (lit "ab" ++ [32]) = false.
Proof.
  apply (@Trimmed_rejects_padded plainHost unit 32 (lit "ab")). reflexivity.
Defined.


Lemma trace_when_all_hold_at_jabberwock :
  trace (lit "jabberwock") [notBlank; lowerCase] tt = recorded (seq 0 2).
Proof.
  apply (trace_when_all_hold jsstring unit (lit "jabberwock")
           [notBlank; lowerCase] tt).
  intros x [<- | [<- | []]]; reflexivity.
Defined.

Lemma trace_up_to_first_failure_at_SHOUT :
  trace (lit "SHOUT") [notBlank; lowerCase; notEmpty] tt = recorded (seq 0 2).
Proof.
  apply (trace_up_to_first_failure jsstring unit (lit "SHOUT")
           [notBlank; lowerCase; notEmpty] tt 1 lowerCase).
  - reflexivity.
  - reflexivity.
  - intros y [<- | []]. reflexivity.
Defined.

(* ================================================================= *)
(** * The engine on predicates that are any code *)

Section GeneralFacts.
Variable A : Type.
Variable W : Type.
Context `{Show A}.

Implicit Types (a : A) (w : W) (x : General.Ctor A W)
         (xs ys : list (General.Ctor A W)).

(** One turn of the loop: the check of the first class decides, or
    the loop goes on in the world the check left. *)
Lemma General_guardImpl_cons a x xs w :
  General.guardImpl a (x :: xs) w =
  match General.check x a w with
  | (Normal true, w') => General.guardImpl a xs w'
  | (Normal false, w') => (Normal false, w')
  | (Throw e, w') => (Throw e, w')
  end.
Proof.
  cbn [General.guardImpl]. unfold General.check, bind.
  destruct (General.construct x w) as [[r|e] w1]; [|reflexivity].
  destruct (General.test r a w1) as [[[|]|e] w2]; reflexivity.
Qed.

(** [lift] after its call of [guardImpl]. *)
Lemma General_lift_run a xs w :
  General.lift a xs w =
  match General.guardImpl a xs w with
  | (Normal true, w') => (Normal a, w')
  | (Normal false, w') => (Throw (General.refinementError xs a), w')
  | (Throw e, w') => (Throw e, w')
  end.
Proof.
  unfold General.lift, bind.
  destruct (General.guardImpl a xs w) as [[[|]|e] w']; reflexivity.
Qed.

(** What [guardImpl] throws, a check threw. *)
Lemma General_throw_origin a xs w (e : Error) :
  thrown (General.guardImpl a xs w) = Some e ->
  exists x w0, In x xs /\ thrown (General.check x a w0) = Some e.
Proof.
  revert w; induction xs as [|x xs IH]; intros w; [discriminate|].
  rewrite General_guardImpl_cons.
  destruct (General.check x a w) as [[[|]|e'] w1] eqn:C.
  - intros T. destruct (IH w1 T) as (y & w0 & I & Ty).
    exists y, w0. split; [now right | exact Ty].
  - discriminate.
  - intros T. exists x, w. split; [now left|].
    unfold thrown in *. now rewrite C.
Qed.

(** When [guardImpl] returns false, a check returned false. *)
Lemma General_false_origin a xs w (w' : W) :
  General.guardImpl a xs w = (Normal false, w') ->
  exists x w0 w1, In x xs /\ General.check x a w0 = (Normal false, w1).
Proof.
  revert w; induction xs as [|x xs IH]; intros w; [discriminate|].
  rewrite General_guardImpl_cons.
  destruct (General.check x a w) as [[[|]|e'] w1] eqn:C.
  - intros T. destruct (IH w1 T) as (y & w0 & w2 & I & Cy).
    exists y, w0, w2. split; [now right | exact Cy].
  - intros _. exists x, w, w1. split; [now left | exact C].
  - discriminate.
Qed.

(** On predicates that answer, [guardImpl] returns, and it returns
    false exactly when one of them answers false. *)
Lemma General_guardImpl_answers a xs w :
  (forall x, In x xs -> exists b, General.answers x a b) ->
  exists (b : bool) (w' : W),
    General.guardImpl a xs w = (Normal b, w')
    /\ (b = false <-> exists x, In x xs /\ General.answers x a false).
Proof.
  revert w; induction xs as [|x xs IH]; intros w P.
  - exists true, w. split; [reflexivity|].
    split; [discriminate | now intros (x & [] & _)].
  - rewrite General_guardImpl_cons.
    destruct (P x (or_introl eq_refl)) as [bx Ax].
    destruct (Ax w) as [w1 C]. rewrite C. destruct bx.
    + destruct (IH w1 (fun y I => P y (or_intror I))) as (b & w' & G & E).
      exists b, w'. split; [exact G|]. rewrite E. split.
      * intros (y & I & Ay). exists y. split; [now right | exact Ay].
      * intros (y & [<- | I] & Ay); [|now exists y].
        destruct (Ay w) as [w2 C2]. rewrite C in C2. discriminate.
    + exists false, w1. split; [reflexivity|]. split; [|reflexivity].
      intros _. exists x. split; [now left | exact Ax].
Qed.

(** C2, as the code has it: [guard] returns true exactly when [lift]
    does not throw, and [guard] and [guards], which are the same call,
    raise nothing of their own.  What they throw, the constructor or the
    test of one of the predicates threw, and [lift] throws it too; when
    they return false, a predicate returned false; and on predicates
    that answer they end with a boolean, which is false exactly when
    one of the predicates answers false. *)
Theorem guard_raises_only_what_a_predicate_raises a xs w :
  General.guards a xs w = General.guard a xs w
  /\ ((exists w', General.guard a xs w = (Normal true, w'))
      <-> thrown (General.lift a xs w) = None)
  /\ (forall e, thrown (General.guard a xs w) = Some e ->
        thrown (General.lift a xs w) = Some e
        /\ exists x w0, In x xs /\ thrown (General.check x a w0) = Some e)
  /\ (forall w', General.guard a xs w = (Normal false, w') ->
        exists x w0 w1, In x xs /\ General.check x a w0 = (Normal false, w1))
  /\ ((forall x, In x xs -> exists b, General.answers x a b) ->
        exists (b : bool) (w' : W),
          General.guard a xs w = (Normal b, w')
          /\ (b = false <-> exists x, In x xs /\ General.answers x a false)).
Proof.
  unfold General.guards, General.guard. rewrite General_lift_run.
  split; [reflexivity|]. split; [|split; [|split]].
  - destruct (General.guardImpl a xs w) as [[[|]|e] w1]; unfold thrown; cbn;
      split; try easy; try (intros [w' E]; discriminate).
    intros _. now exists w1.
  - intros e T. split; [|now apply (General_throw_origin a xs w)].
    destruct (General.guardImpl a xs w) as [[[|]|e'] w1]; try discriminate.
    exact T.
  - intros w'. apply General_false_origin.
  - apply General_guardImpl_answers.
Qed.

(** X12: on predicates that answer, the order of the list changes
    neither what [guard] returns nor whether [lift] returns. *)
Theorem guard_result_up_to_permutation a xs ys w (w' : W) :
  (forall x, In x xs -> exists b, General.answers x a b) ->
  Permutation xs ys ->
  fst (General.guard a xs w) = fst (General.guard a ys w')
  /\ returned (General.lift a xs w) = returned (General.lift a ys w').
Proof.
  intros P Q. unfold General.guard. rewrite !General_lift_run.
  assert (P' : forall y, In y ys -> exists b, General.answers y a b).
  { intros y I. apply P. apply (Permutation_in y (Permutation_sym Q) I). }
  destruct (General_guardImpl_answers a xs w P) as (b & w1 & -> & E).
  destruct (General_guardImpl_answers a ys w' P') as (c & w2 & -> & F).
  assert (B : b = c).
  { destruct b, c; try reflexivity.
    - destruct (proj1 F eq_refl) as (y & I & Ay). apply (proj2 E).
      exists y. split; [|exact Ay].
      apply (Permutation_in y (Permutation_sym Q) I).
    - destruct (proj1 E eq_refl) as (y & I & Ay). symmetry. apply (proj2 F).
      exists y. split; [|exact Ay]. apply (Permutation_in y Q I). }
  subst c. unfold returned. now destruct b.
Qed.

End GeneralFacts.

(** ** The engine above is the general one on predicates that return *)

Section EmbedFacts.
Variable A : Type.
Variable W : Type.
Context `{Show A}.

Implicit Types (a : A) (w : W) (x : Ctor A W) (xs : list (Ctor A W)).

Lemma check_embed a x w :
  General.check (embed x) a w = (Normal (holds a x), step_world a w x).
Proof. reflexivity. Qed.

Lemma embed_answers a x : General.answers (embed x) a (holds a x).
Proof. intros w. exists (step_world a w x). apply check_embed. Qed.

Lemma guardImpl_embed a xs w :
  General.guardImpl a (map embed xs) w = guardImpl a xs w.
Proof.
  revert w; induction xs as [|x xs IH]; intros w; [reflexivity|].
  cbn [map]. rewrite General_guardImpl_cons, check_embed, guardImpl_cons.
  destruct (holds a x); [apply IH | reflexivity].
Qed.

Lemma refinementError_embed a xs :
  General.refinementError (map embed xs) a = refinementError xs a.
Proof.
  unfold General.refinementError, refinementError, General.Array_toString,
    Array_toString. now rewrite map_map.
Qed.

Lemma lift_embed a xs w :
  General.lift a (map embed xs) w = lift a xs w.
Proof.
  rewrite General_lift_run, guardImpl_embed, refinementError_embed, lift_run,
    guardImpl_run.
  now destruct (forallb (holds a) xs).
Qed.

End EmbedFacts.

(** ** With a predicate that throws *)

(** C2, as worded, fails: with the class [Boom] the calls [guard] and
    [guards] do not end with a boolean, they throw what its test
    throws. *)
Lemma guard_throws_with_Boom :
  General.guard (lit "") [Boom] tt = (Throw (mkError (lit "boom")), tt)
  /\ General.guards (lit "") [Boom] tt = (Throw (mkError (lit "boom")), tt)
  /\ ~ (exists (b : bool) (w' : unit),
          General.guard (lit "") [Boom] tt = (Normal b, w')).
Proof.
  repeat split. intros (b & w' & E). discriminate.
Qed.

(** The order of the predicates matters when one of them throws:
    behind a predicate that fails, [Boom] is not reached; in front of
    it, it throws. *)
Lemma Boom_and_order :
  General.guard (lit "") [embed (@NotEmpty plainHost unit); Boom] tt
  = (Normal false, tt)
  /\ General.guard (lit "") [Boom; embed (@NotEmpty plainHost unit)] tt
     = (Throw (mkError (lit "boom")), tt).
Proof. split; reflexivity. Qed.

Lemma guard_raises_only_what_a_predicate_raises_at_SHOUT :
  exists (b : bool) (w' : unit),
    General.guard (lit "SHOUT") (map embed [notBlank; lowerCase]) tt
    = (Normal b, w')
    /\ (b = false <->
        exists x, In x (map embed [notBlank; lowerCase])
                  /\ General.answers x (lit "SHOUT") false).
Proof.
  apply (guard_raises_only_what_a_predicate_raises jsstring unit (lit "SHOUT")
           (map embed [notBlank; lowerCase]) tt).
  intros x [<- | [<- | []]]; eexists; apply embed_answers.
Defined.

Lemma guard_result_up_to_permutation_at_jabberwock :
  fst (General.guard (lit "jabberwock") (map embed [notBlank; lowerCase]) tt)
  = fst (General.guard (lit "jabberwock") (map embed [lowerCase; notBlank]) tt)
  /\ returned (General.lift (lit "jabberwock") (map embed [notBlank; lowerCase]) tt)
     = returned (General.lift (lit "jabberwock") (map embed [lowerCase; notBlank]) tt).
Proof.
  apply (guard_result_up_to_permutation jsstring unit (lit "jabberwock")
           (map embed [notBlank; lowerCase]) (map embed [lowerCase; notBlank])
           tt tt).
  - intros x [<- | [<- | []]]; eexists; apply embed_answers.
  - apply perm_swap.
Defined.
